(** * otk-please: a Slack slash command that claims a one-time key

    Shallow embedding of [otk-please/main.go].  The program is one HTTP
    handler: it verifies the Slack signature of the request, parses the slash
    command, picks the Demo or the Staging key server from the command text,
    POSTs to that server with a bearer secret and writes the returned key back
    to the chat.

    Go strings and byte slices are both byte sequences, so both are [string]
    here ([string(body)] and [[]byte(s)] are the identity).  A Go [error] is
    represented by its message.  Everything the program receives from outside
    (process environment, the slack-go library, url parsing, the network) is a
    field of [World]; the requests the handler hands to the slash-command
    parser and to the HTTP client are recorded in a log of [Event]s. *)

From Stdlib Require Import String Ascii List Arith Lia Bool ZArith.
Import ListNotations.
Open Scope string_scope.

(** ** Errors *)

Definition error := string.

Inductive Result (A : Type) : Type :=
| Ok (a : A)
| Err (e : error).
Arguments Ok {A} a.
Arguments Err {A} e.

(** [errors.Wrap(err, message)] of github.com/pkg/errors: the new message is
    the annotation, a colon, and the cause. *)
Definition Wrap (err : error) (message : string) : error :=
  message ++ ": " ++ err.

(** ** Package strings *)

Module Strings.

Definition LF : string := String "010" "".
Definition CR : string := String "013" "".

(** [len(s) >= len(suffix) && s[len(s)-len(suffix):] == suffix] *)
Definition HasSuffix (s suffix : string) : bool :=
  (String.length suffix <=? String.length s)%nat &&
  String.eqb
    (substring (String.length s - String.length suffix) (String.length suffix) s)
    suffix.

(** [if HasSuffix(s, suffix) { return s[:len(s)-len(suffix)] }; return s] *)
Definition TrimSuffix (s suffix : string) : string :=
  if HasSuffix s suffix
  then substring 0 (String.length s - String.length suffix) s
  else s.

(** [strings.CutPrefix]: the rest of [s] after [prefix], when [s] starts
    with it. *)
Fixpoint CutPrefix (s prefix : string) {struct prefix} : option string :=
  match prefix with
  | "" => Some s
  | String p prefix' =>
      match s with
      | "" => None
      | String c s' => if Ascii.eqb c p then CutPrefix s' prefix' else None
      end
  end.

End Strings.

(** ** Package fmt *)

Module Fmt.

Fixpoint extra (a : list string) : string :=
  match a with
  | [] => ""
  | [x] => "string=" ++ x
  | x :: a' => "string=" ++ x ++ ", " ++ extra a'
  end.

(** [fmt.Sprintf] for formats whose only verb is [%v], with string
    operands, which is all the program uses: each [%v] prints the next
    operand as it is, a verb without operand prints [%!v(MISSING)],
    operands left over are reported at the end. *)
Fixpoint Sprintf (format : string) (a : list string) : string :=
  match format with
  | "" =>
      match a with
      | [] => ""
      | _ => "%!(EXTRA " ++ extra a ++ ")"
      end
  | String c rest =>
      match rest with
      | String d rest' =>
          if Ascii.eqb c "%" && Ascii.eqb d "v"
          then match a with
               | x :: a' => x ++ Sprintf rest' a'
               | [] => "%!v(MISSING)" ++ Sprintf rest' []
               end
          else String c (Sprintf rest a)
      | "" => String c (Sprintf rest a)
      end
  end.

End Fmt.

(** ** Package io: readers *)

Module Io.

(** A byte stream that can be read once: what is still unread, and the
    error the stream ends with, if it does not end with EOF. *)
Record ReadCloser : Type := mkReader {
  unread : string;
  failure : option error
}.

(** [bytes.NewBuffer(buf)]: a reader positioned at the start of [buf]. *)
Definition NewBuffer (buf : string) : ReadCloser :=
  {| unread := buf; failure := None |}.

(** [ioutil.NopCloser(r)]: the same reader, with a [Close] that does
    nothing. *)
Definition NopCloser (r : ReadCloser) : ReadCloser := r.

(** [http.NoBody], the body of a request built with a nil body. *)
Definition NoBody : ReadCloser := NewBuffer "".

(** [ioutil.ReadAll(r)]: everything up to EOF, or the stream's error.  The
    reader is drained either way. *)
Definition ReadAll (r : ReadCloser) : Result string * ReadCloser :=
  let drained := {| unread := ""; failure := failure r |} in
  match failure r with
  | None => (Ok (unread r), drained)
  | Some e => (Err e, drained)
  end.

End Io.

(** ** Package regexp, for case-folded literals *)

Module Regexp.

Definition isLower (c : ascii) : bool :=
  (97 <=? nat_of_ascii c)%nat && (nat_of_ascii c <=? 122)%nat.
Definition isUpper (c : ascii) : bool :=
  (65 <=? nat_of_ascii c)%nat && (nat_of_ascii c <=? 90)%nat.
Definition toLower (c : ascii) : ascii :=
  if isUpper c then ascii_of_nat (nat_of_ascii c + 32) else c.
Definition toUpper (c : ascii) : ascii :=
  if isLower c then ascii_of_nat (nat_of_ascii c - 32) else c.

(** UTF-8 of U+017F (LATIN SMALL LETTER LONG S) and of U+212A (KELVIN
    SIGN), the two runes outside ASCII that [unicode.SimpleFold] puts in
    the orbit of an ASCII letter ([S s U+017F] and [K k U+212A]). *)
Definition longS : string := String "197" (String "191" "").
Definition kelvin : string := String "226" (String "132" (String "170" "")).

Definition rune (c : ascii) : string := String c "".

(** The runes a literal ASCII rune [c] matches under the flag [(?i)], each
    in its UTF-8 encoding: the orbit of [c] under [unicode.SimpleFold]. *)
Definition foldOrbit (c : ascii) : list string :=
  ((if isLower c then [rune c; rune (toUpper c)]
    else if isUpper c then [rune c; rune (toLower c)]
    else [rune c])
   ++ (if Ascii.eqb (toLower c) "s" then [longS] else [])
   ++ (if Ascii.eqb (toLower c) "k" then [kelvin] else []))%list.

(** A compiled expression.  The program compiles only [(?i)] followed by
    ASCII letters, so an expression here is a literal and a fold flag. *)
Record Regexp : Type := mkRegexp {
  foldCase : bool;
  literal : string
}.

Definition MustCompile (str : string) : Regexp :=
  match Strings.CutPrefix str "(?i)" with
  | Some lit => {| foldCase := true; literal := lit |}
  | None => {| foldCase := false; literal := str |}
  end.

Definition alternatives (fold : bool) (c : ascii) : list string :=
  if fold then foldOrbit c else [rune c].

(** The literal matches at the start of [s].  An ASCII byte, and the lead
    byte of [longS] and of [kelvin], always starts a rune when Go decodes
    [s] (also when [s] is not valid UTF-8), so matching rune by rune is
    matching these byte strings. *)
Fixpoint matchHere (fold : bool) (lit s : string) {struct lit} : bool :=
  match lit with
  | "" => true
  | String c lit' =>
      existsb
        (fun enc =>
           match Strings.CutPrefix s enc with
           | Some rest => matchHere fold lit' rest
           | None => false
           end)
        (alternatives fold c)
  end.

Fixpoint search (fold : bool) (lit s : string) {struct s} : bool :=
  matchHere fold lit s ||
  match s with
  | "" => false
  | String _ s' => search fold lit s'
  end.

(** [re.MatchString(s)]: the expression is not anchored, so it matches
    when the literal matches somewhere in [s]. *)
Definition MatchString (re : Regexp) (s : string) : bool :=
  search (foldCase re) (literal re) s.

End Regexp.

(** ** Package net/http *)

Module Http.

Definition StatusOK : Z := 200.
Definition StatusUnauthorized : Z := 401.
Definition StatusInternalServerError : Z := 500.

(** Header fields in the order they were added. *)
Definition Header := list (string * string).

Definition Header_Add (h : Header) (key value : string) : Header :=
  (h ++ [(key, value)])%list.

(** [http.Request], used both for the request the handler serves and for
    the request it sends. *)
Record Request : Type := mkRequest {
  req_Method : string;
  req_URL : string;
  req_Header : Header;
  req_Body : Io.ReadCloser
}.

Definition set_Body (req : Request) (b : Io.ReadCloser) : Request :=
  {| req_Method := req_Method req; req_URL := req_URL req;
     req_Header := req_Header req; req_Body := b |}.

Definition set_Header (req : Request) (h : Header) : Request :=
  {| req_Method := req_Method req; req_URL := req_URL req;
     req_Header := h; req_Body := req_Body req |}.

Record Response : Type := mkResponse {
  res_StatusCode : Z;
  res_Body : Io.ReadCloser
}.

(** [http.ResponseWriter]: the status line once it is written, and the
    body written so far. *)
Record ResponseWriter : Type := mkWriter {
  status : option Z;
  written : string
}.

Definition newResponseWriter : ResponseWriter :=
  {| status := None; written := "" |}.

Definition WriteHeader (w : ResponseWriter) (statusCode : Z) : ResponseWriter :=
  match status w with
  | None => {| status := Some statusCode; written := written w |}
  | Some _ => w
  end.

(** If [WriteHeader] has not been called yet, [Write] calls
    [WriteHeader(http.StatusOK)] before writing the data. *)
Definition Write (w : ResponseWriter) (data : string) : ResponseWriter :=
  let w' := WriteHeader w StatusOK in
  {| status := status w'; written := written w' ++ data |}.

(** A method is a non-empty token. *)
Definition isTokenByte (c : ascii) : bool :=
  Regexp.isUpper c || Regexp.isLower c
  || ((48 <=? nat_of_ascii c)%nat && (nat_of_ascii c <=? 57)%nat)
  || existsb (Ascii.eqb c) (list_ascii_of_string "!#$%&'*+-.^_`|~").

Definition validMethod (method : string) : bool :=
  negb (String.eqb method "") &&
  forallb isTokenByte (list_ascii_of_string method).

End Http.

(** ** Package slack *)

Module Slack.

Record SlashCommand : Type := mkSlashCommand {
  Command : string;
  Text : string
}.

End Slack.

(** ** The outside world *)

Import Io Http Slack.

(** The two constants of main.go. *)
Definition demoAddress : string :=
  "https://submission.covid-alert-demo.cdssandbox.xyz/new-key-claim".
Definition stagingAddress : string :=
  "https://submission.wild-samphire.cdssandbox.xyz/new-key-claim".

Record World : Type := mkWorld {
  (** the process environment *)
  environ : string -> option string;
  (** [slack.NewSecretsVerifier(header, secret)]: checks the signature and
      timestamp headers (against the clock) and starts the keyed hash *)
  SecretsVerifier : Type;
  NewSecretsVerifier : Header -> string -> Result SecretsVerifier;
  (** [secretVerifier.Write(body)]: feeds the hash *)
  sv_Write : SecretsVerifier -> string -> Result SecretsVerifier;
  (** [secretVerifier.Ensure()]: compares the hash with the signature *)
  sv_Ensure : SecretsVerifier -> option error;
  (** [slack.SlashCommandParse(req)]: decodes the form in the request *)
  parseSlashCommand : Request -> Result SlashCommand;
  (** whether [url.Parse] accepts an address; it accepts the two addresses
      compiled into the program *)
  url_Parse_ok : string -> bool;
  url_Parse_demo : url_Parse_ok demoAddress = true;
  url_Parse_staging : url_Parse_ok stagingAddress = true;
  (** the network and the remote servers: what [client.Do] gets back *)
  roundTrip : Request -> Result Response
}.

(** [os.Getenv(key)]: the value, or the empty string when [key] is unset. *)
Definition Getenv (W : World) (key : string) : string :=
  match environ W key with
  | Some v => v
  | None => ""
  end.

(** ** Effects: a log of the calls that leave the handler, and errors *)

Inductive Event : Type :=
| EvParse (req : Request)   (* the request given to the slash-command parser *)
| EvDo (req : Request).     (* the request sent by the HTTP client *)

Definition Eff (A : Type) : Type := list Event -> Result A * list Event.

Definition ret {A : Type} (a : A) : Eff A := fun log => (Ok a, log).

Definition fail {A : Type} (e : error) : Eff A := fun log => (Err e, log).

Definition bind {A B : Type} (m : Eff A) (k : A -> Eff B) : Eff B :=
  fun log =>
    match m log with
    | (Ok a, log') => k a log'
    | (Err e, log') => (Err e, log')
    end.

Definition emit (ev : Event) : Eff unit := fun log => (Ok tt, (log ++ [ev])%list).

Definition lift {A : Type} (r : Result A) : Eff A := fun log => (r, log).

Notation "x <- m ;; k" := (bind m (fun x => k))
  (at level 61, m at next level, right associativity).

(** [http.NewRequest(method, url, nil)]: an empty method stands for GET;
    the method has to be a token and the address has to parse. *)
Definition NewRequest (W : World) (method url : string) : Eff Request :=
  let method := if String.eqb method "" then "GET" else method in
  if negb (validMethod method) then
    fail ("net/http: invalid method " ++ method)
  else if negb (url_Parse_ok W url) then
    fail ("parse " ++ url ++ ": invalid URL")
  else
    ret {| req_Method := method; req_URL := url; req_Header := [];
           req_Body := NoBody |}.

(** [client.Do(req)]: the request goes out; an error comes back only when no
    response could be obtained.  The status code of a response plays no part
    in that.  The client has no timeout: a call that never returns has no
    outcome here, and what is proved of the handler is proved of the runs in
    which its calls return. *)
Definition Do (W : World) (req : Request) : Eff Response :=
  _ <- emit (EvDo req) ;;
  lift (roundTrip W req).

(** [slack.SlashCommandParse(req)] *)
Definition SlashCommandParse (W : World) (req : Request) : Eff SlashCommand :=
  _ <- emit (EvParse req) ;;
  lift (parseSlashCommand W req).

(** ** main.go *)

(** [verifyRequest(req)].  [req] is a pointer in the source: the request as
    the function leaves it is returned next to the error. *)
Definition verifyRequest (W : World) (req : Request) : option error * Request :=
  match NewSecretsVerifier W (req_Header req) (Getenv W "SLACK_SIGNING_SECRET") with
  | Err err => (Some (Wrap err "NewSecretsVerifier failed"), req)
  | Ok secretVerifier =>
      match ReadAll (req_Body req) with
      | (Err err, drained) => (Some (Wrap err "ReadAll failed"), set_Body req drained)
      | (Ok body, _) =>
          (* we need to reset the body to avoid unexpected side effects *)
          let req := set_Body req (NopCloser (NewBuffer body)) in
          match sv_Write W secretVerifier body with
          | Err err => (Some (Wrap err "Ensure failed"), req)
          | Ok secretVerifier =>
              match sv_Ensure W secretVerifier with
              | Some err => (Some (Wrap err "Ensure failed"), req)
              | None => (None, req)
              end
          end
      end
  end.

(** [getToken(bearerToken, address)] *)
Definition getToken (W : World) (bearerToken address : string) : Eff string :=
  req <- NewRequest W "POST" address ;;
  let req :=
    set_Header req
      (Header_Add (req_Header req) "Authorization"
         (Fmt.Sprintf "Bearer %v" [bearerToken])) in
  res <- Do W req ;;
  (* defer res.Body.Close() *)
  body <- lift (fst (ReadAll (res_Body res))) ;;
  ret (Strings.TrimSuffix body Strings.LF).

(** Lines 100 to 115 of [handler]: the bearer secret, the address and the
    display name of the environment the command text names, if any. *)
Definition selectEnvironment (W : World) (text : string)
  : option (string * string * string) :=
  let demo := Regexp.MustCompile "(?i)demo" in
  let staging := Regexp.MustCompile "(?i)staging" in
  if Regexp.MatchString demo text then
    Some (Getenv W "DEMO", demoAddress, "Demo")
  else if Regexp.MatchString staging text then
    Some (Getenv W "STAGING", stagingAddress, "Staging")
  else None.

Definition usage : string := "Please enter either *demo* or *staging*".

(** [handler(w, req)]: the response writer as the handler leaves it, and the
    log of the calls it made. *)
Definition handler (W : World) (w : ResponseWriter) (req : Request)
  : ResponseWriter * list Event :=
  match verifyRequest W req with
  | (Some _, _) => (WriteHeader w StatusUnauthorized, [])
  | (None, req) =>
      match SlashCommandParse W req [] with
      | (Err _, log) => (WriteHeader w StatusInternalServerError, log)
      | (Ok s, log) =>
          let text := Text s in
          match selectEnvironment W text with
          | None => (Write w usage, log)
          | Some (bearerToken, address, environment) =>
              match getToken W bearerToken address log with
              | (Err _, log) => (WriteHeader w StatusInternalServerError, log)
              | (Ok token, log) =>
                  (Write w (Fmt.Sprintf "%v token: %v" [environment; token]), log)
              end
          end
      end
  end.

(** The outbound requests in a log. *)
Fixpoint outbound (log : list Event) : list Request :=
  match log with
  | [] => []
  | EvDo r :: log' => r :: outbound log'
  | EvParse _ :: log' => outbound log'
  end.

(** The requests a log shows the slash-command parser received. *)
Fixpoint parsed (log : list Event) : list Request :=
  match log with
  | [] => []
  | EvParse r :: log' => r :: parsed log'
  | EvDo _ :: log' => parsed log'
  end.

(** ** Vocabulary of the specification *)

Fixpoint lowerASCII (s : string) : string :=
  match s with
  | "" => ""
  | String c s' => String (Regexp.toLower c) (lowerASCII s')
  end.

(** [text] contains [word] in some letter case, at some position. *)
Definition containsAnyCase (word text : string) : Prop :=
  exists pre w suf, text = pre ++ w ++ suf /\ lowerASCII w = lowerASCII word.

(** [text] contains the long s (U+017F) followed by [taging] in some letter
    case. *)
Definition containsLongStaging (text : string) : Prop :=
  exists pre w suf,
    text = pre ++ Regexp.longS ++ w ++ suf /\ lowerASCII w = "taging".

(** A literal none of whose letters is an s or a k: its letters fold within
    ASCII. *)
Fixpoint plain (lit : string) : bool :=
  match lit with
  | "" => true
  | String c lit' =>
      negb (Ascii.eqb (Regexp.toLower c) "s")
      && negb (Ascii.eqb (Regexp.toLower c) "k")
      && plain lit'
  end.

(** Simple case folding, as far as it reaches ASCII letters: an upper-case
    ASCII letter folds to its lower case, the long s (U+017F) to [s] and the
    Kelvin sign (U+212A) to [k]; every other byte stays. *)
Fixpoint caseFold (s : string) : string :=
  match s with
  | "" => ""
  | String c s1 =>
      match s1 with
      | String d s2 =>
          if Ascii.eqb c "197" && Ascii.eqb d "191"
          then String "s" (caseFold s2)
          else
            match s2 with
            | String e s3 =>
                if Ascii.eqb c "226" && Ascii.eqb d "132" && Ascii.eqb e "170"
                then String "k" (caseFold s3)
                else String (Regexp.toLower c) (caseFold s1)
            | "" => String (Regexp.toLower c) (caseFold s1)
            end
      | "" => String (Regexp.toLower c) ""
      end
  end.

(** [text] contains [word] when letter case is ignored: some part of [text]
    folds to what [word] folds to. *)
Definition containsCaseless (word text : string) : Prop :=
  exists pre w suf, text = pre ++ w ++ suf /\ caseFold w = caseFold word.

(** All bytes of [s] are ASCII. *)
Fixpoint allASCII (s : string) : bool :=
  match s with
  | "" => true
  | String c s1 => (nat_of_ascii c <? 128)%nat && allASCII s1
  end.

(** [s] ends with [suffix]. *)
Definition endsWith (suffix s : string) : Prop := exists b, s = b ++ suffix.

(** An environment variable that is not set, or set to nothing. *)
Definition unsetOrEmpty (W : World) (key : string) : Prop :=
  environ W key = None \/ environ W key = Some "".

(** The request [getToken] sends: a POST without body that carries the
    bearer secret. *)
Definition tokenRequest (bearerToken address : string) : Request :=
  {| req_Method := "POST"; req_URL := address;
     req_Header := [("Authorization", "Bearer " ++ bearerToken)];
     req_Body := NoBody |}.

(** ** A concrete world, for running the handler *)

Module Scenario.

(** A stand-in for the keyed hash of the Slack library: the digest of a
    message under a key is the key followed by the message. *)
Record Verifier : Type := mkVerifier {
  expected : string;
  digest : string
}.

Definition lookup (h : Header) (key : string) : string :=
  match find (fun kv => String.eqb (fst kv) key) h with
  | Some kv => snd kv
  | None => ""
  end.

Definition newVerifier (h : Header) (secret : string) : Result Verifier :=
  let signature := lookup h "X-Slack-Signature" in
  let stimestamp := lookup h "X-Slack-Request-Timestamp" in
  if String.eqb signature "" || String.eqb stimestamp ""
  then Err "missing headers"
  else Ok {| expected := signature;
             digest := secret ++ "v0:" ++ stimestamp ++ ":" |}.

Definition write (v : Verifier) (body : string) : Result Verifier :=
  Ok {| expected := expected v; digest := digest v ++ body |}.

Definition ensure (v : Verifier) : option error :=
  if String.eqb (expected v) ("v0=" ++ digest v) then None
  else Some "Computed unexpected signature".

(** A form with the single field [text], not percent-encoded.  The parser
    reads the body of the request it is given. *)
Definition parse (req : Request) : Result SlashCommand :=
  match ReadAll (req_Body req) with
  | (Ok body, _) =>
      match Strings.CutPrefix body "text=" with
      | Some t => Ok {| Command := "/otk"; Text := t |}
      | None => Err "missing text"
      end
  | (Err e, _) => Err e
  end.

Definition world (env : string -> option string)
                 (reply : Request -> Result Response) : World :=
  {| environ := env;
     SecretsVerifier := Verifier;
     NewSecretsVerifier := newVerifier;
     sv_Write := write;
     sv_Ensure := ensure;
     parseSlashCommand := parse;
     url_Parse_ok := fun _ => true;
     url_Parse_demo := eq_refl;
     url_Parse_staging := eq_refl;
     roundTrip := reply |}.

Definition secrets (key : string) : option string :=
  if String.eqb key "SLACK_SIGNING_SECRET" then Some "shh"
  else if String.eqb key "DEMO" then Some "demo-secret"
  else if String.eqb key "STAGING" then Some "staging-secret"
  else None.

(** Only the signing secret is configured. *)
Definition signingOnly (key : string) : option string :=
  if String.eqb key "SLACK_SIGNING_SECRET" then Some "shh" else None.

(** A key server that answers every request with [code] and [body]. *)
Definition answers (code : Z) (body : string) (_ : Request) : Result Response :=
  Ok {| res_StatusCode := code; res_Body := NewBuffer body |}.

(** A request carrying [text], with the signature for [secret]. *)
Definition signed (secret text : string) : Request :=
  {| req_Method := "POST"; req_URL := "/";
     req_Header :=
       [("X-Slack-Request-Timestamp", "1600000000");
        ("X-Slack-Signature",
         "v0=" ++ secret ++ "v0:1600000000:" ++ "text=" ++ text)];
     req_Body := NewBuffer ("text=" ++ text) |}.

(** The same request without the signature header. *)
Definition unsigned (text : string) : Request :=
  {| req_Method := "POST"; req_URL := "/";
     req_Header := [("X-Slack-Request-Timestamp", "1600000000")];
     req_Body := NewBuffer ("text=" ++ text) |}.

(** The word [staging] spelled with the long s (U+017F). *)
Definition longStaging : string := Regexp.longS ++ "taging".

(** The worlds the scenarios run in. *)

(** The key server answers 200 with a key and a newline. *)
Definition happy : World := world secrets (answers 200 ("abc123" ++ Strings.LF)).

(** The key server answers 500 with an error page. *)
Definition failing : World :=
  world secrets (answers 500 ("upstream exploded" ++ Strings.LF)).

(** The key server cannot be reached. *)
Definition unreachable : World :=
  world secrets (fun _ => Err "dial tcp: connection refused").

(** The key server ends its answer with CR LF. *)
Definition crlf : World :=
  world secrets (answers 200 ("abc" ++ Strings.CR ++ Strings.LF)).

(** The bearer secrets are not configured. *)
Definition unconfigured : World :=
  world signingOnly (answers 200 ("abc123" ++ Strings.LF)).

(** A signed request with an arbitrary body. *)
Definition signedRaw (secret body : string) : Request :=
  {| req_Method := "POST"; req_URL := "/";
     req_Header :=
       [("X-Slack-Request-Timestamp", "1600000000");
        ("X-Slack-Signature", "v0=" ++ secret ++ "v0:1600000000:" ++ body)];
     req_Body := NewBuffer body |}.

(** A request whose body breaks off while it is read. *)
Definition truncated : Request :=
  {| req_Method := "POST"; req_URL := "/";
     req_Header :=
       [("X-Slack-Request-Timestamp", "1600000000");
        ("X-Slack-Signature", "v0=shhv0:1600000000:text=demo")];
     req_Body := {| unread := "text=de"; failure := Some "unexpected EOF" |} |}.

(** No variable is set at all. *)
Definition bare : World :=
  world (fun _ => None) (answers 200 ("abc123" ++ Strings.LF)).

End Scenario.

(** * Properties *)

(** ** Strings *)

Section StringFacts.

Lemma append_nil_r (s : string) : s ++ "" = s.
Proof. induction s as [|c s IH]; simpl; [reflexivity | now rewrite IH]. Qed.

Lemma append_assoc (s t u : string) : (s ++ t) ++ u = s ++ t ++ u.
Proof. induction s as [|c s IH]; simpl; [reflexivity | now rewrite IH]. Qed.

Lemma length_append (s t : string) :
  String.length (s ++ t) = String.length s + String.length t.
Proof. induction s as [|c s IH]; simpl; [reflexivity | now rewrite IH]. Qed.

Lemma substring_all (s : string) : substring 0 (String.length s) s = s.
Proof. induction s as [|c s IH]; simpl; [reflexivity | now rewrite IH]. Qed.

Lemma substring_head (s t : string) :
  substring 0 (String.length s) (s ++ t) = s.
Proof.
  induction s as [|c s IH]; simpl.
  - now destruct t.
  - now rewrite IH.
Qed.

Lemma substring_tail (s t : string) :
  substring (String.length s) (String.length t) (s ++ t) = t.
Proof.
  induction s as [|c s IH]; simpl; [apply substring_all | exact IH].
Qed.

(** Cutting a string in two at any position inside it. *)
Lemma substring_split (n : nat) (s : string) :
  n <= String.length s ->
  s = substring 0 n s ++ substring n (String.length s - n) s.
Proof.
  revert n; induction s as [|c s IH]; intros [|n] Hn; simpl in *.
  - reflexivity.
  - lia.
  - now rewrite substring_all.
  - f_equal. apply IH. lia.
Qed.

Lemma CutPrefix_Some (s p r : string) :
  Strings.CutPrefix s p = Some r -> s = p ++ r.
Proof.
  revert s; induction p as [|c p IH]; intros s H; simpl in H.
  - injection H as ->. reflexivity.
  - destruct s as [|d s]; [discriminate|].
    destruct (Ascii.eqb d c) eqn:E; [|discriminate].
    apply Ascii.eqb_eq in E; subst d. simpl. f_equal. now apply IH.
Qed.

Lemma CutPrefix_append (p r : string) : Strings.CutPrefix (p ++ r) p = Some r.
Proof.
  induction p as [|c p IH]; simpl; [reflexivity|].
  now rewrite Ascii.eqb_refl.
Qed.

Lemma HasSuffix_append (b suffix : string) :
  Strings.HasSuffix (b ++ suffix) suffix = true.
Proof.
  unfold Strings.HasSuffix. rewrite length_append.
  replace (String.length b + String.length suffix - String.length suffix)
    with (String.length b) by lia.
  rewrite substring_tail, String.eqb_refl, andb_true_r.
  apply Nat.leb_le. lia.
Qed.

Lemma HasSuffix_endsWith (s suffix : string) :
  Strings.HasSuffix s suffix = true <-> endsWith suffix s.
Proof.
  split.
  - unfold Strings.HasSuffix. intros H.
    apply andb_true_iff in H. destruct H as [Hlen Heq].
    apply Nat.leb_le in Hlen. apply String.eqb_eq in Heq.
    exists (substring 0 (String.length s - String.length suffix) s).
    pose proof (substring_split (String.length s - String.length suffix) s)
      as Hs.
    replace (String.length s - (String.length s - String.length suffix))
      with (String.length suffix) in Hs by lia.
    rewrite Heq in Hs. apply Hs. lia.
  - intros [b ->]. apply HasSuffix_append.
Qed.

Lemma TrimSuffix_append (b suffix : string) :
  Strings.TrimSuffix (b ++ suffix) suffix = b.
Proof.
  unfold Strings.TrimSuffix. rewrite HasSuffix_append, length_append.
  replace (String.length b + String.length suffix - String.length suffix)
    with (String.length b) by lia.
  apply substring_head.
Qed.

Lemma TrimSuffix_other (s suffix : string) :
  ~ endsWith suffix s -> Strings.TrimSuffix s suffix = s.
Proof.
  intros H. unfold Strings.TrimSuffix.
  destruct (Strings.HasSuffix s suffix) eqn:E; [|reflexivity].
  apply HasSuffix_endsWith in E. contradiction.
Qed.

Lemma append_inj_r (s t u : string) : s ++ u = t ++ u -> s = t.
Proof.
  intros H.
  assert (L : String.length s = String.length t).
  { apply (f_equal String.length) in H. rewrite !length_append in H. lia. }
  revert t H L; induction s as [|c s IH]; intros [|d t] H L; simpl in *;
    try discriminate; [reflexivity|].
  inversion H. f_equal. apply IH; [assumption | lia].
Qed.

End StringFacts.

(** ** Case-folded literals *)

Section RegexpFacts.

Import Regexp.

Ltac ascii_cases c := destruct c as [[] [] [] [] [] [] [] []].

(** Every byte is in the orbit of its lower-case form. *)
Lemma orbit_lower (x : ascii) : In (rune x) (foldOrbit (toLower x)).
Proof. ascii_cases x; vm_compute; tauto. Qed.

(** The orbit of an ASCII rune holds its two letter cases, and the long s
    or the Kelvin sign when the rune is an s or a k. *)
Lemma orbit_inv (c : ascii) (enc : string) :
  In enc (foldOrbit c) ->
  (exists x, enc = rune x /\ toLower x = toLower c)
  \/ (enc = longS /\ toLower c = "s"%char)
  \/ (enc = kelvin /\ toLower c = "k"%char).
Proof.
  intros H.
  ascii_cases c; vm_compute in H;
    repeat (destruct H as [H|H]; [subst enc|]); try contradiction;
    first [ left; eexists; split; reflexivity
          | right; left; split; reflexivity
          | right; right; split; reflexivity ].
Qed.

Lemma matchHere_cons_inv (fold : bool) (c : ascii) (lit s : string) :
  matchHere fold (String c lit) s = true ->
  exists enc rest,
    In enc (alternatives fold c) /\ s = enc ++ rest /\
    matchHere fold lit rest = true.
Proof.
  simpl. intros H. apply existsb_exists in H. destruct H as (enc & Hin & H).
  destruct (Strings.CutPrefix s enc) as [rest|] eqn:E; [|discriminate].
  exists enc, rest. split; [assumption|]. split; [|assumption].
  now apply CutPrefix_Some.
Qed.

Lemma matchHere_cons_intro (fold : bool) (c : ascii) (lit enc rest : string) :
  In enc (alternatives fold c) ->
  matchHere fold lit rest = true ->
  matchHere fold (String c lit) (enc ++ rest) = true.
Proof.
  intros Hin H. simpl. apply existsb_exists. exists enc.
  split; [assumption|]. now rewrite CutPrefix_append.
Qed.

(** A word in any letter case is matched at the start of the text. *)
Lemma matchHere_anycase (w suf : string) :
  matchHere true (lowerASCII w) (w ++ suf) = true.
Proof.
  induction w as [|x w IH]; [reflexivity|].
  change (String x w ++ suf) with (rune x ++ (w ++ suf)).
  change (lowerASCII (String x w)) with (String (toLower x) (lowerASCII w)).
  apply matchHere_cons_intro; [apply orbit_lower | exact IH].
Qed.

(** What a plain literal matches is the literal in some letter case. *)
Lemma matchHere_plain_inv (lit s : string) :
  plain lit = true ->
  matchHere true lit s = true ->
  exists w suf, s = w ++ suf /\ lowerASCII w = lowerASCII lit.
Proof.
  revert s; induction lit as [|c lit IH]; intros s Hp H.
  - exists "", s. split; reflexivity.
  - simpl in Hp. apply andb_true_iff in Hp. destruct Hp as [Hc Hp].
    apply andb_true_iff in Hc. destruct Hc as [Hs Hk].
    apply negb_true_iff in Hs, Hk.
    apply matchHere_cons_inv in H. destruct H as (enc & rest & Hin & -> & H).
    destruct (IH rest Hp H) as (w & suf & -> & Hw).
    apply orbit_inv in Hin.
    destruct Hin as [(x & -> & Hx) | [(_ & E) | (_ & E)]].
    + exists (String x w), suf. split; [reflexivity|].
      simpl. now rewrite Hx, Hw.
    + rewrite E in Hs. discriminate.
    + rewrite E in Hk. discriminate.
Qed.

Lemma search_intro (fold : bool) (lit pre rest : string) :
  matchHere fold lit rest = true -> search fold lit (pre ++ rest) = true.
Proof.
  intros H. induction pre as [|c pre IH]; simpl.
  - destruct rest; simpl; now rewrite H.
  - rewrite IH. apply orb_true_r.
Qed.

Lemma search_inv (fold : bool) (lit s : string) :
  search fold lit s = true ->
  exists pre rest, s = pre ++ rest /\ matchHere fold lit rest = true.
Proof.
  induction s as [|c s IH]; simpl; intros H;
    apply orb_true_iff in H; destruct H as [H|H].
  - exists "", "". split; [reflexivity | assumption].
  - discriminate.
  - exists "", (String c s). split; [reflexivity | assumption].
  - destruct (IH H) as (pre & rest & -> & Hm).
    exists (String c pre), rest. split; [reflexivity | assumption].
Qed.

(** [(?i)demo] matches exactly the texts that contain the word in some
    letter case. *)
Lemma MatchString_demo (text : string) :
  MatchString (MustCompile "(?i)demo") text = true <->
  containsAnyCase "demo" text.
Proof.
  change (MustCompile "(?i)demo") with (mkRegexp true "demo").
  unfold MatchString; simpl foldCase; simpl literal. split.
  - intros H. apply search_inv in H. destruct H as (pre & rest & -> & H).
    apply matchHere_plain_inv in H; [|reflexivity].
    destruct H as (w & suf & -> & Hw). now exists pre, w, suf.
  - intros (pre & w & suf & -> & Hw). apply search_intro.
    change "demo" with (lowerASCII "demo"). rewrite <- Hw.
    apply matchHere_anycase.
Qed.

(** [(?i)staging] matches the texts that contain the word in some letter
    case, and those where the long s stands for its first letter. *)
Lemma MatchString_staging (text : string) :
  MatchString (MustCompile "(?i)staging") text = true <->
  containsAnyCase "staging" text \/ containsLongStaging text.
Proof.
  change (MustCompile "(?i)staging") with (mkRegexp true "staging").
  unfold MatchString; simpl foldCase; simpl literal. split.
  - intros H. apply search_inv in H. destruct H as (pre & rest & -> & H).
    apply matchHere_cons_inv in H. destruct H as (enc & rest' & Hin & -> & H).
    apply matchHere_plain_inv in H; [|reflexivity].
    destruct H as (w & suf & -> & Hw).
    apply orbit_inv in Hin.
    destruct Hin as [(x & -> & Hx) | [(-> & _) | (_ & E)]].
    + left. exists pre, (String x w), suf. split; [reflexivity|].
      simpl. now rewrite Hx, Hw.
    + right. now exists pre, w, suf.
    + discriminate.
  - intros [(pre & w & suf & -> & Hw) | (pre & w & suf & -> & Hw)];
      apply search_intro.
    + change "staging" with (lowerASCII "staging"). rewrite <- Hw.
      apply matchHere_anycase.
    + apply matchHere_cons_intro; [vm_compute; tauto|].
      change "taging" with (lowerASCII "taging") in Hw |- *.
      rewrite <- Hw. apply matchHere_anycase.
Qed.

End RegexpFacts.

(** ** The token fetcher and the handler, step by step *)

Section HandlerFacts.

Variable W : World.

Lemma Sprintf_bearer (bearerToken : string) :
  Fmt.Sprintf "Bearer %v" [bearerToken] = "Bearer " ++ bearerToken.
Proof. simpl. now rewrite append_nil_r. Qed.

Lemma Sprintf_token (environment token : string) :
  Fmt.Sprintf "%v token: %v" [environment; token]
  = environment ++ " token: " ++ token.
Proof. simpl. now rewrite append_nil_r. Qed.

(** What [getToken] does, by the outcome of each call it makes. *)
Lemma getToken_run (bearerToken address : string) (log : list Event) :
  getToken W bearerToken address log =
  if url_Parse_ok W address then
    let log' := (log ++ [EvDo (tokenRequest bearerToken address)])%list in
    match roundTrip W (tokenRequest bearerToken address) with
    | Err e => (Err e, log')
    | Ok res =>
        match failure (res_Body res) with
        | Some e => (Err e, log')
        | None =>
            (Ok (Strings.TrimSuffix (unread (res_Body res)) Strings.LF), log')
        end
    end
  else (Err ("parse " ++ address ++ ": invalid URL"), log).
Proof.
  unfold getToken, NewRequest, Do, bind, emit, lift, ret, fail.
  change (String.eqb "POST" "") with false. cbv beta iota zeta.
  change (validMethod "POST") with true.
  destruct (url_Parse_ok W address); cbn [negb]; cbv beta iota zeta;
    [|reflexivity].
  rewrite Sprintf_bearer.
  unfold set_Header, Header_Add.
  cbn [req_Header req_Method req_URL req_Body app].
  fold (tokenRequest bearerToken address).
  destruct (roundTrip W (tokenRequest bearerToken address)) as [res|e];
    [|reflexivity].
  unfold ReadAll. destruct (failure (res_Body res)); reflexivity.
Qed.

(** The outcome of a fetch does not depend on what was logged before. *)
Lemma getToken_log (bearerToken address : string) (log : list Event) :
  getToken W bearerToken address log =
  (fst (getToken W bearerToken address []),
   (log ++ snd (getToken W bearerToken address []))%list).
Proof.
  rewrite !getToken_run.
  destruct (url_Parse_ok W address); simpl;
    [|now rewrite app_nil_r].
  destruct (roundTrip W (tokenRequest bearerToken address)) as [res|e];
    [|reflexivity].
  destruct (failure (res_Body res)); reflexivity.
Qed.

(** The environments the handler can select. *)
Lemma selectEnvironment_cases (text bearerToken address environment : string) :
  selectEnvironment W text = Some (bearerToken, address, environment) ->
  (bearerToken = Getenv W "DEMO" /\ address = demoAddress /\
   environment = "Demo")
  \/ (bearerToken = Getenv W "STAGING" /\ address = stagingAddress /\
      environment = "Staging").
Proof.
  unfold selectEnvironment.
  destruct (Regexp.MatchString _ text);
    [|destruct (Regexp.MatchString _ text)]; intros H; inversion H; tauto.
Qed.

Lemma selected_address_parses (text bearerToken address environment : string) :
  selectEnvironment W text = Some (bearerToken, address, environment) ->
  url_Parse_ok W address = true.
Proof.
  intros H. apply selectEnvironment_cases in H.
  destruct H as [(_ & -> & _) | (_ & -> & _)];
    [apply url_Parse_demo | apply url_Parse_staging].
Qed.

(** The handler after a successful verification and parse. *)
Lemma handler_valid (w : ResponseWriter) (req req' : Request) (s : SlashCommand) :
  verifyRequest W req = (None, req') ->
  parseSlashCommand W req' = Ok s ->
  handler W w req =
  match selectEnvironment W (Text s) with
  | None => (Write w usage, [EvParse req'])
  | Some (bearerToken, address, environment) =>
      match getToken W bearerToken address [EvParse req'] with
      | (Err _, log) => (WriteHeader w StatusInternalServerError, log)
      | (Ok token, log) =>
          (Write w (environment ++ " token: " ++ token), log)
      end
  end.
Proof.
  intros Hv Hp. unfold handler. rewrite Hv.
  unfold SlashCommandParse, bind, emit, lift. simpl app. rewrite Hp.
  destruct (selectEnvironment W (Text s)) as [[[b a] e]|]; [|reflexivity].
  destruct (getToken W b a [EvParse req']) as [[token|err] log];
    [|reflexivity].
  now rewrite Sprintf_token.
Qed.

(** The failures of [verifyRequest], cause by cause. *)
Lemma verifyRequest_fails (req : Request) :
  fst (verifyRequest W req) <> None <->
  (exists e, NewSecretsVerifier W (req_Header req)
               (Getenv W "SLACK_SIGNING_SECRET") = Err e)
  \/ (exists sv,
        NewSecretsVerifier W (req_Header req)
          (Getenv W "SLACK_SIGNING_SECRET") = Ok sv /\
        (failure (req_Body req) <> None
         \/ (exists e, sv_Write W sv (unread (req_Body req)) = Err e)
         \/ (exists sv', sv_Write W sv (unread (req_Body req)) = Ok sv' /\
                         sv_Ensure W sv' <> None))).
Proof.
  unfold verifyRequest, ReadAll.
  destruct (NewSecretsVerifier W _ _) as [sv|e].
  2:{ simpl. split; [intros _; left; now exists e | discriminate]. }
  destruct (failure (req_Body req)) as [e|] eqn:Hf.
  { simpl. split; [|discriminate].
    intros _. right. exists sv. split; [reflexivity|]. left. discriminate. }
  destruct (sv_Write W sv (unread (req_Body req))) as [sv'|e] eqn:Hw.
  2:{ simpl. split; [|discriminate].
      intros _. right. exists sv. split; [reflexivity|].
      right. left. now exists e. }
  destruct (sv_Ensure W sv') as [e|] eqn:He; simpl.
  - split; [|discriminate].
    intros _. right. exists sv. split; [reflexivity|].
    right. right. exists sv'. split; [assumption|]. rewrite He. discriminate.
  - split; [congruence|].
    intros [[e H] | (sv0 & H0 & [H | [[e H] | (sv1 & H1 & H2)]])];
      try discriminate; try congruence.
    all: injection H0 as <-; rewrite Hw in *; try discriminate.
    all: injection H1 as <-; congruence.
Qed.

End HandlerFacts.

Section HandlerOutcomes.

Variable W : World.

(** The handler once an environment is selected: one POST goes out, and
    the response depends on whether an answer came back and could be
    read. *)
Lemma handler_selected (w : ResponseWriter) (req req' : Request)
      (s : SlashCommand) (bearerToken address environment : string) :
  verifyRequest W req = (None, req') ->
  parseSlashCommand W req' = Ok s ->
  selectEnvironment W (Text s) = Some (bearerToken, address, environment) ->
  handler W w req =
  (match roundTrip W (tokenRequest bearerToken address) with
   | Err _ => WriteHeader w StatusInternalServerError
   | Ok res =>
       match failure (res_Body res) with
       | Some _ => WriteHeader w StatusInternalServerError
       | None =>
           Write w (environment ++ " token: " ++
                    Strings.TrimSuffix (unread (res_Body res)) Strings.LF)
       end
   end,
   [EvParse req'; EvDo (tokenRequest bearerToken address)]).
Proof.
  intros Hv Hp Hs. rewrite (handler_valid W w req req' s Hv Hp), Hs.
  rewrite getToken_run, (selected_address_parses W _ _ _ _ Hs).
  cbv zeta. simpl app.
  destruct (roundTrip W (tokenRequest bearerToken address)) as [res|e];
    [|reflexivity].
  destruct (failure (res_Body res)); reflexivity.
Qed.

Lemma handler_outbound (w : ResponseWriter) (req req' : Request)
      (s : SlashCommand) (bearerToken address environment : string) :
  verifyRequest W req = (None, req') ->
  parseSlashCommand W req' = Ok s ->
  selectEnvironment W (Text s) = Some (bearerToken, address, environment) ->
  outbound (snd (handler W w req)) = [tokenRequest bearerToken address].
Proof.
  intros Hv Hp Hs. now rewrite (handler_selected w _ _ _ _ _ _ Hv Hp Hs).
Qed.

Lemma handler_written (req req' : Request) (s : SlashCommand)
      (bearerToken address environment : string) (res : Response) :
  verifyRequest W req = (None, req') ->
  parseSlashCommand W req' = Ok s ->
  selectEnvironment W (Text s) = Some (bearerToken, address, environment) ->
  roundTrip W (tokenRequest bearerToken address) = Ok res ->
  failure (res_Body res) = None ->
  fst (handler W newResponseWriter req) =
  {| status := Some StatusOK;
     written := environment ++ " token: " ++
                Strings.TrimSuffix (unread (res_Body res)) Strings.LF |}.
Proof.
  intros Hv Hp Hs Hr Hf.
  now rewrite (handler_selected _ _ _ _ _ _ _ Hv Hp Hs), Hr, Hf.
Qed.

Lemma select_demo (text : string) :
  containsAnyCase "demo" text ->
  selectEnvironment W text = Some (Getenv W "DEMO", demoAddress, "Demo").
Proof.
  intros H. apply MatchString_demo in H.
  unfold selectEnvironment. now rewrite H.
Qed.


End HandlerOutcomes.

(** * The claims *)

(** C1, as stated, fails: the key server answers 500 with an error page,
    and the handler answers 200 and presents that page as the key. *)
Lemma C1_counterexample :
  verifyRequest Scenario.failing (Scenario.signed "shh" "please use demo")
  = (None, Scenario.signed "shh" "please use demo")
  /\ selectEnvironment Scenario.failing "please use demo"
     = Some ("demo-secret", demoAddress, "Demo")
  /\ roundTrip Scenario.failing (tokenRequest "demo-secret" demoAddress)
     = Ok {| res_StatusCode := 500;
             res_Body := NewBuffer ("upstream exploded" ++ Strings.LF) |}
  /\ fst (handler Scenario.failing newResponseWriter
            (Scenario.signed "shh" "please use demo"))
     = {| status := Some 200%Z; written := "Demo token: upstream exploded" |}.
Proof. repeat split; reflexivity. Qed.

(** C1, amended: for a verified request that selects an environment, the
    handler answers 500 with an empty body exactly when no answer came back
    from the key server or the answer could not be read; an answer that was
    read is a key whatever its status code, and the handler answers 200 with
    the environment name and that text. *)
Theorem C1_fetch_outcome (W : World) (req req' : Request) (s : SlashCommand)
        (bearerToken address environment : string) :
  verifyRequest W req = (None, req') ->
  parseSlashCommand W req' = Ok s ->
  selectEnvironment W (Text s) = Some (bearerToken, address, environment) ->
  fst (handler W newResponseWriter req) =
  match roundTrip W (tokenRequest bearerToken address) with
  | Err _ => {| status := Some StatusInternalServerError; written := "" |}
  | Ok res =>
      match failure (res_Body res) with
      | Some _ => {| status := Some StatusInternalServerError; written := "" |}
      | None =>
          {| status := Some StatusOK;
             written := environment ++ " token: " ++
                        Strings.TrimSuffix (unread (res_Body res)) Strings.LF |}
      end
  end.
Proof.
  intros Hv Hp Hs. rewrite (handler_selected W _ _ _ _ _ _ _ Hv Hp Hs).
  simpl fst.
  destruct (roundTrip W (tokenRequest bearerToken address)) as [res|e];
    [|reflexivity].
  destruct (failure (res_Body res)); reflexivity.
Qed.

Lemma C1_fetch_outcome_witness :
  fst (handler Scenario.unreachable newResponseWriter
         (Scenario.signed "shh" "please use demo"))
  = {| status := Some 500%Z; written := "" |}.
Proof.
  exact (C1_fetch_outcome Scenario.unreachable
           (Scenario.signed "shh" "please use demo")
           (Scenario.signed "shh" "please use demo")
           {| Command := "/otk"; Text := "please use demo" |}
           "demo-secret" demoAddress "Demo" eq_refl eq_refl eq_refl).
Defined.

(** C2: when the text of a verified command contains [demo] in any letter
    case, at any position, the handler selects Demo: the POST goes to the
    demo address with the secret of the variable DEMO, and the answer, once
    read, is presented under the name Demo. *)
Theorem C2_demo (W : World) (req req' : Request) (s : SlashCommand) :
  verifyRequest W req = (None, req') ->
  parseSlashCommand W req' = Ok s ->
  containsAnyCase "demo" (Text s) ->
  selectEnvironment W (Text s) = Some (Getenv W "DEMO", demoAddress, "Demo")
  /\ outbound (snd (handler W newResponseWriter req))
     = [tokenRequest (Getenv W "DEMO") demoAddress]
  /\ forall res,
       roundTrip W (tokenRequest (Getenv W "DEMO") demoAddress) = Ok res ->
       failure (res_Body res) = None ->
       written (fst (handler W newResponseWriter req))
       = "Demo token: " ++
         Strings.TrimSuffix (unread (res_Body res)) Strings.LF.
Proof.
  intros Hv Hp Hc. pose proof (select_demo W _ Hc) as Hs.
  split; [exact Hs|]. split.
  - exact (handler_outbound W _ _ _ _ _ _ _ Hv Hp Hs).
  - intros res Hr Hf.
    now rewrite (handler_written W _ _ _ _ _ _ _ Hv Hp Hs Hr Hf).
Qed.

Lemma C2_demo_witness :
  selectEnvironment Scenario.happy "run DeMolition now"
  = Some ("demo-secret", demoAddress, "Demo")
  /\ outbound (snd (handler Scenario.happy newResponseWriter
                      (Scenario.signed "shh" "run DeMolition now")))
     = [tokenRequest "demo-secret" demoAddress].
Proof.
  assert (Hc : containsAnyCase "demo" "run DeMolition now").
  { exists "run ", "DeMo", "lition now". split; reflexivity. }
  destruct (C2_demo Scenario.happy
              (Scenario.signed "shh" "run DeMolition now")
              (Scenario.signed "shh" "run DeMolition now")
              {| Command := "/otk"; Text := "run DeMolition now" |}
              eq_refl eq_refl Hc) as (H1 & H2 & _).
  split; [exact H1 | exact H2].
Defined.



(** ** Containment when letter case is ignored *)

Section CaselessFacts.

Import Regexp.

Ltac ascii_cases c := destruct c as [[] [] [] [] [] [] [] []].

Lemma caseFold_longS (s : string) :
  caseFold (longS ++ s) = String "s" (caseFold s).
Proof. reflexivity. Qed.

Lemma caseFold_kelvin (s : string) :
  caseFold (kelvin ++ s) = String "k" (caseFold s).
Proof. reflexivity. Qed.

(** How [caseFold] starts on a text that is not empty. *)
Lemma caseFold_cons (c : ascii) (s : string) :
  (exists t, String c s = longS ++ t)
  \/ (exists t, String c s = kelvin ++ t)
  \/ caseFold (String c s) = String (toLower c) (caseFold s).
Proof.
  destruct s as [|d s]; [right; right; reflexivity|].
  cbn [caseFold].
  destruct (Ascii.eqb c "197" && Ascii.eqb d "191") eqn:L.
  { left. apply andb_true_iff in L. destruct L as [Hc Hd].
    apply Ascii.eqb_eq in Hc, Hd. subst. now exists s. }
  destruct s as [|e s]; [right; right; reflexivity|].
  destruct (Ascii.eqb c "226" && Ascii.eqb d "132" && Ascii.eqb e "170") eqn:K.
  { right. left. apply andb_true_iff in K. destruct K as [K He].
    apply andb_true_iff in K. destruct K as [Hc Hd].
    apply Ascii.eqb_eq in Hc, Hd, He. subst. now exists s. }
  right. right. reflexivity.
Qed.

(** On ASCII bytes folding is lowering. *)
Lemma caseFold_ascii (s : string) :
  allASCII s = true -> caseFold s = lowerASCII s.
Proof.
  induction s as [|c s IH]; [reflexivity|].
  simpl allASCII. intros H. apply andb_true_iff in H. destruct H as [Hc Hs].
  destruct (caseFold_cons c s) as [[t E] | [[t E] | E]].
  - injection E as -> _. discriminate Hc.
  - injection E as -> _. discriminate Hc.
  - rewrite E. simpl. now rewrite (IH Hs).
Qed.

Lemma toLower_ascii (x : ascii) :
  (nat_of_ascii (toLower x) <? 128)%nat = (nat_of_ascii x <? 128)%nat.
Proof. ascii_cases x; reflexivity. Qed.

Lemma allASCII_lower (s : string) : allASCII (lowerASCII s) = allASCII s.
Proof.
  induction s as [|c s IH]; [reflexivity|].
  simpl. now rewrite toLower_ascii, IH.
Qed.

(** A word of ASCII letters found in some letter case is found when case is
    ignored. *)
Lemma containsAnyCase_caseless (word text : string) :
  allASCII word = true ->
  containsAnyCase word text -> containsCaseless word text.
Proof.
  intros Ha (pre & w & suf & -> & Hw). exists pre, w, suf.
  split; [reflexivity|].
  assert (Haw : allASCII w = true)
    by now rewrite <- allASCII_lower, Hw, allASCII_lower.
  now rewrite (caseFold_ascii w Haw), (caseFold_ascii word Ha).
Qed.

(** The long s spelling is a spelling of [staging] when case is ignored. *)
Lemma containsLongStaging_caseless (text : string) :
  containsLongStaging text -> containsCaseless "staging" text.
Proof.
  intros (pre & w & suf & -> & Hw). exists pre, (longS ++ w), suf.
  split; [now rewrite append_assoc|].
  rewrite caseFold_longS.
  assert (Haw : allASCII w = true)
    by (rewrite <- allASCII_lower, Hw; reflexivity).
  now rewrite (caseFold_ascii w Haw), Hw.
Qed.

(** What folds to a literal is matched by it. *)
Lemma matchHere_caseFold_bounded (n : nat) :
  forall w suf,
    String.length w <= n ->
    matchHere true (caseFold w) (w ++ suf) = true.
Proof.
  induction n as [|n IH]; intros w suf Hn.
  - destruct w; [reflexivity | simpl in Hn; lia].
  - destruct w as [|c w]; [reflexivity|].
    simpl in Hn.
    destruct (caseFold_cons c w) as [[t E] | [[t E] | E]]; rewrite E.
    + rewrite caseFold_longS, append_assoc.
      apply matchHere_cons_intro; [vm_compute; tauto|].
      apply IH. apply (f_equal String.length) in E. simpl in E. lia.
    + rewrite caseFold_kelvin, append_assoc.
      apply matchHere_cons_intro; [vm_compute; tauto|].
      apply IH. apply (f_equal String.length) in E. simpl in E. lia.
    + change (String c w ++ suf) with (rune c ++ (w ++ suf)).
      apply matchHere_cons_intro; [apply orbit_lower|].
      apply IH. lia.
Qed.

Lemma matchHere_caseFold (w suf : string) :
  matchHere true (caseFold w) (w ++ suf) = true.
Proof. now apply (matchHere_caseFold_bounded (String.length w)). Qed.

(** [(?i)demo] matches exactly the texts that contain [demo] when case is
    ignored. *)
Lemma MatchString_demo_caseless (text : string) :
  MatchString (MustCompile "(?i)demo") text = true <->
  containsCaseless "demo" text.
Proof.
  split.
  - intros H. apply MatchString_demo in H.
    now apply containsAnyCase_caseless.
  - intros (pre & w & suf & -> & Hw).
    change (MustCompile "(?i)demo") with (mkRegexp true "demo").
    unfold MatchString; simpl foldCase; simpl literal.
    apply search_intro. change "demo" with (caseFold "demo").
    rewrite <- Hw. apply matchHere_caseFold.
Qed.

(** [(?i)staging] matches exactly the texts that contain [staging] when
    case is ignored. *)
Lemma MatchString_staging_caseless (text : string) :
  MatchString (MustCompile "(?i)staging") text = true <->
  containsCaseless "staging" text.
Proof.
  split.
  - intros H. apply MatchString_staging in H. destruct H as [H|H].
    + now apply containsAnyCase_caseless.
    + now apply containsLongStaging_caseless.
  - intros (pre & w & suf & -> & Hw).
    change (MustCompile "(?i)staging") with (mkRegexp true "staging").
    unfold MatchString; simpl foldCase; simpl literal.
    apply search_intro. change "staging" with (caseFold "staging").
    rewrite <- Hw. apply matchHere_caseFold.
Qed.

(** [staging] spelled with the long s holds the word in no ASCII letter
    case, and holds it when case is ignored. *)
Lemma longStaging_spelling :
  ~ containsAnyCase "staging" Scenario.longStaging
  /\ containsCaseless "staging" Scenario.longStaging.
Proof.
  split.
  - intros (pre & w & suf & E & Hw).
    destruct w as [|x1 [|x2 [|x3 [|x4 [|x5 [|x6 [|x7 [|x8 w]]]]]]]];
      try discriminate Hw.
    injection Hw as H1 _ _ _ _ _ _.
    unfold Scenario.longStaging, Regexp.longS in E.
    destruct pre as [|p1 [|p2 pre]]; simpl in E.
    + injection E as <- _. vm_compute in H1. discriminate H1.
    + injection E as _ <- _. vm_compute in H1. discriminate H1.
    + apply (f_equal String.length) in E. simpl in E.
      rewrite length_append in E. simpl in E. lia.
  - exists "", Scenario.longStaging, "". split; reflexivity.
Qed.

End CaselessFacts.

(** C4: when the text of a verified command contains neither [demo] nor
    [staging], letter case ignored, the handler answers 200 with the usage
    text as its body and sends nothing to a key server. *)
Theorem C4_usage (W : World) (req req' : Request) (s : SlashCommand) :
  verifyRequest W req = (None, req') ->
  parseSlashCommand W req' = Ok s ->
  ~ containsCaseless "demo" (Text s) ->
  ~ containsCaseless "staging" (Text s) ->
  fst (handler W newResponseWriter req)
  = {| status := Some StatusOK;
       written := "Please enter either *demo* or *staging*" |}
  /\ outbound (snd (handler W newResponseWriter req)) = [].
Proof.
  intros Hv Hp Hd Hs.
  rewrite (handler_valid W _ _ _ _ Hv Hp).
  unfold selectEnvironment.
  destruct (Regexp.MatchString (Regexp.MustCompile "(?i)demo") (Text s))
    eqn:D; [apply MatchString_demo_caseless in D; contradiction|].
  destruct (Regexp.MatchString (Regexp.MustCompile "(?i)staging") (Text s))
    eqn:E; [apply MatchString_staging_caseless in E; contradiction|].
  split; reflexivity.
Qed.

Lemma hello_no_word :
  ~ containsCaseless "demo" "hello" /\ ~ containsCaseless "staging" "hello".
Proof.
  split; intros H;
    [apply MatchString_demo_caseless in H
    |apply MatchString_staging_caseless in H];
    vm_compute in H; discriminate H.
Qed.

Lemma C4_usage_witness :
  fst (handler Scenario.happy newResponseWriter (Scenario.signed "shh" "hello"))
  = {| status := Some 200%Z;
       written := "Please enter either *demo* or *staging*" |}
  /\ outbound (snd (handler Scenario.happy newResponseWriter
                      (Scenario.signed "shh" "hello"))) = [].
Proof.
  exact (C4_usage Scenario.happy (Scenario.signed "shh" "hello")
           (Scenario.signed "shh" "hello")
           {| Command := "/otk"; Text := "hello" |}
           eq_refl eq_refl (proj1 hello_no_word) (proj2 hello_no_word)).
Defined.

(** C5: when the verification of the signature fails, for whatever cause,
    the handler answers 401 with an empty body; the command is not parsed
    and nothing is sent to a key server. *)
Theorem C5_unauthorized (W : World) (req : Request) (err : error) :
  fst (verifyRequest W req) = Some err ->
  fst (handler W newResponseWriter req)
  = {| status := Some StatusUnauthorized; written := "" |}
  /\ parsed (snd (handler W newResponseWriter req)) = []
  /\ outbound (snd (handler W newResponseWriter req)) = [].
Proof.
  intros H. unfold handler.
  destruct (verifyRequest W req) as [[e|] req']; [|discriminate H].
  repeat split.
Qed.

Lemma C5_unauthorized_witness :
  fst (handler Scenario.happy newResponseWriter (Scenario.unsigned "demo"))
  = {| status := Some 401%Z; written := "" |}
  /\ parsed (snd (handler Scenario.happy newResponseWriter
                    (Scenario.unsigned "demo"))) = []
  /\ outbound (snd (handler Scenario.happy newResponseWriter
                      (Scenario.unsigned "demo"))) = [].
Proof.
  exact (C5_unauthorized Scenario.happy (Scenario.unsigned "demo")
           "NewSecretsVerifier failed: missing headers" eq_refl).
Defined.

(** C6: when a verified request selects an environment and the fetch
    returns a key, the handler answers 200 and the body is the display name
    of the environment, the text [ token: ] and the key. *)
Theorem C6_success (W : World) (req req' : Request) (s : SlashCommand)
        (bearerToken address environment token : string) :
  verifyRequest W req = (None, req') ->
  parseSlashCommand W req' = Ok s ->
  selectEnvironment W (Text s) = Some (bearerToken, address, environment) ->
  fst (getToken W bearerToken address []) = Ok token ->
  fst (handler W newResponseWriter req)
  = {| status := Some StatusOK;
       written := environment ++ " token: " ++ token |}.
Proof.
  intros Hv Hp Hs Ht.
  rewrite (handler_valid W _ _ _ _ Hv Hp), Hs, getToken_log, Ht.
  reflexivity.
Qed.

Lemma C6_success_witness :
  fst (handler Scenario.happy newResponseWriter
         (Scenario.signed "shh" "please use demo"))
  = {| status := Some 200%Z; written := "Demo token: abc123" |}.
Proof.
  exact (C6_success Scenario.happy
           (Scenario.signed "shh" "please use demo")
           (Scenario.signed "shh" "please use demo")
           {| Command := "/otk"; Text := "please use demo" |}
           "demo-secret" demoAddress "Demo" "abc123"
           eq_refl eq_refl eq_refl eq_refl).
Defined.

(** C7, as stated, fails: trimming a body that ends with two newlines
    leaves one, and trimming that result again removes it. *)
Lemma C7_counterexample :
  Strings.TrimSuffix ("abc" ++ Strings.LF ++ Strings.LF) Strings.LF
  = "abc" ++ Strings.LF
  /\ Strings.TrimSuffix
       (Strings.TrimSuffix ("abc" ++ Strings.LF ++ Strings.LF) Strings.LF)
       Strings.LF
     <> Strings.TrimSuffix ("abc" ++ Strings.LF ++ Strings.LF) Strings.LF.
Proof. split; [reflexivity | discriminate]. Qed.

(** C7, amended: the trimming of the token fetcher removes exactly one
    trailing newline when the body ends with one and removes nothing
    otherwise; trimming the result again leaves it unchanged exactly when
    the body does not end with two newlines. *)
Theorem C7_trim (body : string) :
  (forall b, body = b ++ Strings.LF ->
             Strings.TrimSuffix body Strings.LF = b)
  /\ (~ endsWith Strings.LF body ->
      Strings.TrimSuffix body Strings.LF = body)
  /\ (Strings.TrimSuffix (Strings.TrimSuffix body Strings.LF) Strings.LF
      = Strings.TrimSuffix body Strings.LF
      <-> ~ endsWith (Strings.LF ++ Strings.LF) body).
Proof.
  split; [intros b ->; apply TrimSuffix_append|].
  split; [apply TrimSuffix_other|].
  split.
  - intros H [b ->].
    rewrite <- append_assoc in H. rewrite !TrimSuffix_append in H.
    apply (f_equal String.length) in H. rewrite length_append in H.
    simpl in H. lia.
  - intros H.
    destruct (Strings.HasSuffix body Strings.LF) eqn:E.
    + apply HasSuffix_endsWith in E. destruct E as [b ->].
      rewrite TrimSuffix_append. apply TrimSuffix_other.
      intros [b' ->]. apply H. exists b'. now rewrite append_assoc.
    + unfold Strings.TrimSuffix at 2 3. rewrite E.
      unfold Strings.TrimSuffix. now rewrite E.
Qed.

Lemma C7_trim_witness :
  Strings.TrimSuffix ("abc123" ++ Strings.LF) Strings.LF = "abc123"
  /\ Strings.TrimSuffix "abc123" Strings.LF = "abc123".
Proof.
  destruct (C7_trim ("abc123" ++ Strings.LF)) as (H1 & _ & _).
  destruct (C7_trim "abc123") as (_ & H2 & _).
  split; [apply H1; reflexivity|].
  apply H2. intros H. apply HasSuffix_endsWith in H. discriminate H.
Defined.

(** C8: when the verification reads the body of the request, it puts back
    a fresh reader over the same bytes: reading the request after the
    verification yields what reading it before would have, and that is the
    request the slash-command parser is given. *)
Theorem C8_body_restored (W : World) (req : Request) (sv : SecretsVerifier W) :
  NewSecretsVerifier W (req_Header req) (Getenv W "SLACK_SIGNING_SECRET")
  = Ok sv ->
  failure (req_Body req) = None ->
  snd (verifyRequest W req) = set_Body req (NewBuffer (unread (req_Body req)))
  /\ fst (ReadAll (req_Body (snd (verifyRequest W req))))
     = fst (ReadAll (req_Body req))
  /\ (fst (verifyRequest W req) = None ->
      parsed (snd (handler W newResponseWriter req))
      = [set_Body req (NewBuffer (unread (req_Body req)))]).
Proof.
  intros Hsv Hf.
  assert (Hreq : snd (verifyRequest W req)
                 = set_Body req (NewBuffer (unread (req_Body req)))).
  { unfold verifyRequest, ReadAll. rewrite Hsv, Hf. unfold NopCloser.
    destruct (sv_Write W sv (unread (req_Body req))) as [sv'|e];
      [|reflexivity].
    destruct (sv_Ensure W sv'); reflexivity. }
  split; [exact Hreq|]. split.
  - rewrite Hreq. unfold ReadAll. simpl. now rewrite Hf.
  - intros Hv. unfold handler.
    destruct (verifyRequest W req) as [[e|] req'] eqn:E; [discriminate Hv|].
    simpl in Hreq. subst req'.
    unfold SlashCommandParse, bind, emit, lift. simpl app.
    destruct (parseSlashCommand W _) as [s|e]; [|reflexivity].
    destruct (selectEnvironment W (Text s)) as [[[b a] env]|]; [|reflexivity].
    rewrite getToken_log. rewrite getToken_run.
    destruct (url_Parse_ok W a); [|destruct (fst _); reflexivity].
    cbv zeta.
    destruct (roundTrip W (tokenRequest b a)) as [res|e]; [|reflexivity].
    destruct (failure (res_Body res)); reflexivity.
Qed.

Lemma C8_body_restored_witness :
  fst (ReadAll (req_Body (snd (verifyRequest Scenario.happy
                                 (Scenario.signed "shh" "please use demo")))))
  = Ok "text=please use demo"
  /\ fst (ReadAll (snd (ReadAll (req_Body
                                   (Scenario.signed "shh" "please use demo")))))
     = Ok "".
Proof.
  split; [|reflexivity].
  destruct (C8_body_restored Scenario.happy
              (Scenario.signed "shh" "please use demo")
              (Scenario.mkVerifier
                 "v0=shhv0:1600000000:text=please use demo"
                 "shhv0:1600000000:")
              eq_refl eq_refl) as (_ & H & _).
  rewrite H. reflexivity.
Defined.

(** C9: for every body the key server returns, the fetched key is the body
    with one trailing newline removed: a body that ends with a newline loses
    that one byte, every other body is returned whole, and a body that ends
    with CR LF keeps the CR. *)
Theorem C9_crlf_keeps_cr (W : World) (bearerToken address : string)
        (res : Response) :
  url_Parse_ok W address = true ->
  roundTrip W (tokenRequest bearerToken address) = Ok res ->
  failure (res_Body res) = None ->
  (forall t, unread (res_Body res) = t ++ Strings.LF ->
             fst (getToken W bearerToken address []) = Ok t)
  /\ (~ endsWith Strings.LF (unread (res_Body res)) ->
      fst (getToken W bearerToken address []) = Ok (unread (res_Body res)))
  /\ (forall t, unread (res_Body res) = t ++ Strings.CR ++ Strings.LF ->
                fst (getToken W bearerToken address [])
                = Ok (t ++ Strings.CR)).
Proof.
  intros Hu Hr Hf.
  assert (Hg : fst (getToken W bearerToken address [])
               = Ok (Strings.TrimSuffix (unread (res_Body res)) Strings.LF)).
  { rewrite getToken_run, Hu. cbv zeta. now rewrite Hr, Hf. }
  assert (H : forall t, unread (res_Body res) = t ++ Strings.LF ->
                        fst (getToken W bearerToken address []) = Ok t).
  { intros t Ht. now rewrite Hg, Ht, TrimSuffix_append. }
  split; [exact H|]. split.
  - intros Hn. now rewrite Hg, (TrimSuffix_other _ _ Hn).
  - intros t Ht. apply H. now rewrite append_assoc.
Qed.

Lemma C9_crlf_keeps_cr_witness :
  fst (getToken Scenario.crlf "demo-secret" demoAddress [])
  = Ok ("abc" ++ Strings.CR)
  /\ fst (getToken (Scenario.world Scenario.secrets (Scenario.answers 200 "abc123"))
            "demo-secret" demoAddress [])
     = Ok "abc123".
Proof.
  split.
  - exact (proj2 (proj2 (C9_crlf_keeps_cr Scenario.crlf "demo-secret"
                    demoAddress
                    {| res_StatusCode := 200;
                       res_Body :=
                         NewBuffer ("abc" ++ Strings.CR ++ Strings.LF) |}
                    eq_refl eq_refl eq_refl)) "abc" eq_refl).
  - apply (proj1 (proj2 (C9_crlf_keeps_cr
                    (Scenario.world Scenario.secrets
                       (Scenario.answers 200 "abc123"))
                    "demo-secret" demoAddress
                    {| res_StatusCode := 200; res_Body := NewBuffer "abc123" |}
                    eq_refl eq_refl eq_refl))).
    intros H. apply HasSuffix_endsWith in H. discriminate H.
Defined.

(** C10: when a verified request selects an environment whose bearer
    variable is unset or empty, the handler does not stop: it sends the POST
    to the address of the environment with the header
    [Authorization: Bearer ] and no credential after it. *)
Theorem C10_empty_bearer (W : World) (req req' : Request) (s : SlashCommand)
        (bearerToken address environment : string) :
  verifyRequest W req = (None, req') ->
  parseSlashCommand W req' = Ok s ->
  selectEnvironment W (Text s) = Some (bearerToken, address, environment) ->
  unsetOrEmpty W (if String.eqb environment "Demo" then "DEMO" else "STAGING") ->
  outbound (snd (handler W newResponseWriter req))
  = [{| req_Method := "POST"; req_URL := address;
        req_Header := [("Authorization", "Bearer ")];
        req_Body := NoBody |}].
Proof.
  intros Hv Hp Hs He.
  rewrite (handler_outbound W _ _ _ _ _ _ _ Hv Hp Hs).
  assert (Hb : bearerToken = "").
  { apply selectEnvironment_cases in Hs.
    destruct Hs as [(-> & _ & ->) | (-> & _ & ->)]; simpl in He;
      unfold Getenv; destruct He as [-> | ->]; reflexivity. }
  now subst bearerToken.
Qed.

Lemma C10_empty_bearer_witness :
  outbound (snd (handler Scenario.unconfigured newResponseWriter
                   (Scenario.signed "shh" "STAGING please")))
  = [{| req_Method := "POST"; req_URL := stagingAddress;
        req_Header := [("Authorization", "Bearer ")];
        req_Body := NoBody |}].
Proof.
  exact (C10_empty_bearer Scenario.unconfigured
           (Scenario.signed "shh" "STAGING please")
           (Scenario.signed "shh" "STAGING please")
           {| Command := "/otk"; Text := "STAGING please" |}
           "" stagingAddress "Staging"
           eq_refl eq_refl eq_refl (or_introl eq_refl)).
Defined.

(** * Further properties of the handler *)

(** ** Letter case and position of the words *)

Section SelectionFacts.

Import Regexp.

Ltac ascii_cases c := destruct c as [[] [] [] [] [] [] [] []].

Lemma toLower_idem (x : ascii) : toLower (toLower x) = toLower x.
Proof. ascii_cases x; reflexivity. Qed.

Lemma lowerASCII_idem (s : string) : lowerASCII (lowerASCII s) = lowerASCII s.
Proof.
  induction s as [|c s IH]; simpl; [reflexivity|].
  now rewrite toLower_idem, IH.
Qed.

Lemma lowerASCII_append (a b : string) :
  lowerASCII (a ++ b) = lowerASCII a ++ lowerASCII b.
Proof. induction a as [|c a IH]; simpl; [reflexivity | now rewrite IH]. Qed.

Lemma lowerASCII_length (s : string) :
  String.length (lowerASCII s) = String.length s.
Proof. induction s as [|c s IH]; simpl; [reflexivity | now rewrite IH]. Qed.

(** A split of the lowered text is the lowering of a split of the text. *)
Lemma lowerASCII_split (t a b : string) :
  lowerASCII t = a ++ b ->
  exists a' b', t = a' ++ b' /\ lowerASCII a' = a /\ lowerASCII b' = b.
Proof.
  revert t; induction a as [|c a IH]; intros t H.
  - exists "", t. repeat split. exact H.
  - destruct t as [|x t]; [discriminate H|].
    simpl in H. injection H as Hx H.
    destruct (IH t H) as (a' & b' & -> & Ha & Hb).
    exists (String x a'), b'. repeat split; [|assumption].
    simpl. now rewrite Hx, Ha.
Qed.

(** Lowering does not produce the bytes of the long s out of other bytes. *)
Lemma lowerASCII_longS (s : string) : lowerASCII s = longS -> s = longS.
Proof.
  destruct s as [|x [|y [|z s]]]; try discriminate.
  simpl. intros H. injection H as Hx Hy.
  assert (x = "197"%char) as -> by (ascii_cases x; first [reflexivity | discriminate Hx]).
  assert (y = "191"%char) as -> by (ascii_cases y; first [reflexivity | discriminate Hy]).
  reflexivity.
Qed.

Lemma containsAnyCase_lower (word t : string) :
  containsAnyCase word (lowerASCII t) <-> containsAnyCase word t.
Proof.
  split.
  - intros (pre & w & suf & E & Hw).
    apply lowerASCII_split in E. destruct E as (pre' & r & -> & _ & E).
    apply lowerASCII_split in E. destruct E as (w' & suf' & -> & <- & _).
    exists pre', w', suf'. split; [reflexivity|].
    now rewrite <- Hw, lowerASCII_idem.
  - intros (pre & w & suf & -> & Hw).
    exists (lowerASCII pre), (lowerASCII w), (lowerASCII suf).
    split; [now rewrite !lowerASCII_append|].
    now rewrite lowerASCII_idem.
Qed.

Lemma containsLongStaging_lower (t : string) :
  containsLongStaging (lowerASCII t) <-> containsLongStaging t.
Proof.
  split.
  - intros (pre & w & suf & E & Hw).
    apply lowerASCII_split in E. destruct E as (pre' & r & -> & _ & E).
    apply lowerASCII_split in E. destruct E as (l & r' & -> & Hl & E).
    apply lowerASCII_split in E. destruct E as (w' & suf' & -> & <- & _).
    apply lowerASCII_longS in Hl. subst l.
    exists pre', w', suf'. split; [reflexivity|].
    now rewrite <- Hw, lowerASCII_idem.
  - intros (pre & w & suf & -> & Hw).
    exists (lowerASCII pre), (lowerASCII w), (lowerASCII suf).
    split; [now rewrite !lowerASCII_append|].
    now rewrite lowerASCII_idem.
Qed.

Lemma bool_eq_iff (a b : bool) : (a = true <-> b = true) -> a = b.
Proof. destruct a, b; intuition congruence. Qed.

Lemma MatchString_demo_lower (t : string) :
  MatchString (MustCompile "(?i)demo") (lowerASCII t)
  = MatchString (MustCompile "(?i)demo") t.
Proof.
  apply bool_eq_iff. rewrite !MatchString_demo. apply containsAnyCase_lower.
Qed.

Lemma MatchString_staging_lower (t : string) :
  MatchString (MustCompile "(?i)staging") (lowerASCII t)
  = MatchString (MustCompile "(?i)staging") t.
Proof.
  apply bool_eq_iff. rewrite !MatchString_staging.
  now rewrite containsAnyCase_lower, containsLongStaging_lower.
Qed.

Lemma containsAnyCase_around (word pre t suf : string) :
  containsAnyCase word t -> containsAnyCase word (pre ++ t ++ suf).
Proof.
  intros (p & w & s & -> & Hw). exists (pre ++ p), w, (s ++ suf).
  split; [|assumption]. now rewrite !append_assoc.
Qed.

Lemma containsLongStaging_around (pre t suf : string) :
  containsLongStaging t -> containsLongStaging (pre ++ t ++ suf).
Proof.
  intros (p & w & s & -> & Hw). exists (pre ++ p), w, (s ++ suf).
  split; [|assumption]. now rewrite !append_assoc.
Qed.

Lemma containsAnyCase_length (word t : string) :
  containsAnyCase word t -> String.length word <= String.length t.
Proof.
  intros (p & w & s & -> & Hw).
  apply (f_equal String.length) in Hw. rewrite !lowerASCII_length in Hw.
  rewrite !length_append. lia.
Qed.

Lemma containsLongStaging_length (t : string) :
  containsLongStaging t -> 8 <= String.length t.
Proof.
  intros (p & w & s & -> & Hw).
  apply (f_equal String.length) in Hw. rewrite lowerASCII_length in Hw.
  simpl in Hw. rewrite !length_append. simpl. lia.
Qed.

End SelectionFacts.

(** ** The handler on every path *)

Section HandlerPaths.

Variable W : World.

(** The handler after a verification that failed. *)
Lemma handler_rejected (w : ResponseWriter) (req req' : Request) (e : error) :
  verifyRequest W req = (Some e, req') ->
  handler W w req = (WriteHeader w StatusUnauthorized, []).
Proof. intros H. unfold handler. now rewrite H. Qed.

(** The handler after a parse that failed. *)
Lemma handler_unparsed (w : ResponseWriter) (req req' : Request) (e : error) :
  verifyRequest W req = (None, req') ->
  parseSlashCommand W req' = Err e ->
  handler W w req = (WriteHeader w StatusInternalServerError, [EvParse req']).
Proof.
  intros Hv Hp. unfold handler. rewrite Hv.
  unfold SlashCommandParse, bind, emit, lift. simpl app. now rewrite Hp.
Qed.

(** The calls the handler makes, path by path. *)
Lemma handler_log (w : ResponseWriter) (req : Request) :
  snd (handler W w req) =
  match verifyRequest W req with
  | (Some _, _) => []
  | (None, req') =>
      match parseSlashCommand W req' with
      | Err _ => [EvParse req']
      | Ok s =>
          match selectEnvironment W (Text s) with
          | None => [EvParse req']
          | Some (bearerToken, address, _) =>
              [EvParse req'; EvDo (tokenRequest bearerToken address)]
          end
      end
  end.
Proof.
  destruct (verifyRequest W req) as [[e|] req'] eqn:Hv.
  - now rewrite (handler_rejected w req req' e Hv).
  - destruct (parseSlashCommand W req') as [s|e] eqn:Hp.
    + destruct (selectEnvironment W (Text s)) as [[[b a] env]|] eqn:Hs.
      * now rewrite (handler_selected W w _ _ _ _ _ _ Hv Hp Hs).
      * now rewrite (handler_valid W w _ _ _ Hv Hp), Hs.
    + now rewrite (handler_unparsed w req req' e Hv Hp).
Qed.

Lemma verifyRequest_passes (req : Request) :
  fst (verifyRequest W req) = None <->
  exists sv sv',
    NewSecretsVerifier W (req_Header req) (Getenv W "SLACK_SIGNING_SECRET")
    = Ok sv
    /\ failure (req_Body req) = None
    /\ sv_Write W sv (unread (req_Body req)) = Ok sv'
    /\ sv_Ensure W sv' = None.
Proof.
  unfold verifyRequest, ReadAll.
  destruct (NewSecretsVerifier W _ _) as [sv|e].
  2:{ simpl. split; [discriminate|]. intros (? & ? & H & _). discriminate H. }
  destruct (failure (req_Body req)) as [e|].
  { simpl. split; [discriminate|]. intros (? & ? & _ & H & _). discriminate H. }
  destruct (sv_Write W sv (unread (req_Body req))) as [sv'|e] eqn:Hw.
  2:{ simpl. split; [discriminate|].
      intros (sv0 & ? & H0 & _ & H & _). injection H0 as <-.
      rewrite Hw in H. discriminate H. }
  destruct (sv_Ensure W sv') as [e|] eqn:He; simpl.
  - split; [discriminate|].
    intros (sv0 & sv1 & H0 & _ & H1 & H2). injection H0 as <-.
    rewrite Hw in H1. injection H1 as <-. congruence.
  - split; [|reflexivity]. intros _. now exists sv, sv'.
Qed.

Lemma verifyRequest_request (req : Request) :
  fst (verifyRequest W req) = None ->
  snd (verifyRequest W req) = set_Body req (NewBuffer (unread (req_Body req))).
Proof.
  intros H. pose proof H as H'. apply verifyRequest_passes in H'.
  destruct H' as (sv & sv' & Hsv & Hf & Hw & He).
  unfold verifyRequest, ReadAll. rewrite Hsv, Hf, Hw, He. reflexivity.
Qed.

End HandlerPaths.

(** * Further properties *)

(** X1: when the request is verified but the slash command cannot be
    parsed, the handler answers 500 with an empty body; the parser was
    called once and nothing is sent to a key server. *)
Theorem X1_parse_failure (W : World) (req req' : Request) (e : error) :
  verifyRequest W req = (None, req') ->
  parseSlashCommand W req' = Err e ->
  handler W newResponseWriter req
  = ({| status := Some StatusInternalServerError; written := "" |},
     [EvParse req']).
Proof.
  intros Hv Hp. now rewrite (handler_unparsed W _ _ _ _ Hv Hp).
Qed.

Lemma X1_parse_failure_witness :
  handler Scenario.happy newResponseWriter (Scenario.signedRaw "shh" "garbage")
  = ({| status := Some 500%Z; written := "" |},
     [EvParse (Scenario.signedRaw "shh" "garbage")]).
Proof.
  exact (X1_parse_failure Scenario.happy (Scenario.signedRaw "shh" "garbage")
           (Scenario.signedRaw "shh" "garbage") "missing text"
           eq_refl eq_refl).
Defined.

(** X2: whenever the handler returns, the response it leaves is one of
    five: 401 or 500 with an empty body, 200 with the usage text, or 200
    with [Demo token: ] or [Staging token: ] followed by a key.  It writes
    no other status, and an error status never comes with a body. *)
Theorem X2_response_shapes (W : World) (req : Request) :
  fst (handler W newResponseWriter req)
  = {| status := Some StatusUnauthorized; written := "" |}
  \/ fst (handler W newResponseWriter req)
     = {| status := Some StatusInternalServerError; written := "" |}
  \/ fst (handler W newResponseWriter req)
     = {| status := Some StatusOK; written := usage |}
  \/ exists token,
       fst (handler W newResponseWriter req)
       = {| status := Some StatusOK; written := "Demo token: " ++ token |}
       \/ fst (handler W newResponseWriter req)
          = {| status := Some StatusOK; written := "Staging token: " ++ token |}.
Proof.
  destruct (verifyRequest W req) as [[e|] req'] eqn:Hv.
  { left. now rewrite (handler_rejected W _ req req' e Hv). }
  destruct (parseSlashCommand W req') as [s|e] eqn:Hp.
  2:{ right. left. now rewrite (handler_unparsed W _ req req' e Hv Hp). }
  destruct (selectEnvironment W (Text s)) as [[[b a] env]|] eqn:Hs.
  2:{ right. right. left. now rewrite (handler_valid W _ _ _ _ Hv Hp), Hs. }
  rewrite (handler_selected W _ _ _ _ _ _ _ Hv Hp Hs). simpl fst.
  destruct (roundTrip W (tokenRequest b a)) as [res|e]; [|right; left; reflexivity].
  destruct (failure (res_Body res)); [right; left; reflexivity|].
  right. right. right.
  exists (Strings.TrimSuffix (unread (res_Body res)) Strings.LF).
  apply selectEnvironment_cases in Hs.
  destruct Hs as [(_ & _ & ->) | (_ & _ & ->)]; [left | right]; reflexivity.
Qed.

(** X3: the handler calls the parser at most once and sends at most one
    request, after the parse; a failed fetch is not tried again and not
    tried on the other environment.  What it sends is the POST with the
    DEMO secret to the demo address or the POST with the STAGING secret to
    the staging address. *)
Theorem X3_log_shapes (W : World) (req : Request) :
  snd (handler W newResponseWriter req) = []
  \/ snd (handler W newResponseWriter req)
     = [EvParse (snd (verifyRequest W req))]
  \/ snd (handler W newResponseWriter req)
     = [EvParse (snd (verifyRequest W req));
        EvDo (tokenRequest (Getenv W "DEMO") demoAddress)]
  \/ snd (handler W newResponseWriter req)
     = [EvParse (snd (verifyRequest W req));
        EvDo (tokenRequest (Getenv W "STAGING") stagingAddress)].
Proof.
  rewrite handler_log.
  destruct (verifyRequest W req) as [[e|] req']; [now left|]. simpl snd.
  destruct (parseSlashCommand W req') as [s|e]; [|now right; left].
  destruct (selectEnvironment W (Text s)) as [[[b a] env]|] eqn:Hs;
    [|now right; left].
  apply selectEnvironment_cases in Hs.
  destruct Hs as [(-> & -> & _) | (-> & -> & _)];
    [right; right; left | right; right; right]; reflexivity.
Qed.

(** X4: the choice of the environment does not depend on the letter case of
    the command text: two texts that differ only in the case of ASCII
    letters select the same environment. *)
Theorem X4_case_insensitive (W : World) (t1 t2 : string) :
  lowerASCII t1 = lowerASCII t2 ->
  selectEnvironment W t1 = selectEnvironment W t2.
Proof.
  intros H. unfold selectEnvironment.
  rewrite <- (MatchString_demo_lower t1), <- (MatchString_demo_lower t2).
  rewrite <- (MatchString_staging_lower t1), <- (MatchString_staging_lower t2).
  now rewrite H.
Qed.

Lemma X4_case_insensitive_witness :
  selectEnvironment Scenario.happy "Please use STAGING"
  = selectEnvironment Scenario.happy "please use Staging".
Proof.
  exact (X4_case_insensitive Scenario.happy "Please use STAGING"
           "please use Staging" eq_refl).
Defined.

(** X5: words around a text that names an environment never lead back to
    the usage answer: the longer text selects the same environment, or Demo
    when the added words bring in [demo]. *)
Theorem X5_surrounding_text (W : World) (pre text suf : string) :
  selectEnvironment W text <> None ->
  selectEnvironment W (pre ++ text ++ suf) = selectEnvironment W text
  \/ selectEnvironment W (pre ++ text ++ suf)
     = Some (Getenv W "DEMO", demoAddress, "Demo").
Proof.
  unfold selectEnvironment. intros H.
  destruct (Regexp.MatchString (Regexp.MustCompile "(?i)demo") text) eqn:D.
  - apply MatchString_demo in D.
    apply (containsAnyCase_around _ pre _ suf), MatchString_demo in D.
    rewrite D. now left.
  - destruct (Regexp.MatchString (Regexp.MustCompile "(?i)staging") text)
      eqn:S; [|contradiction].
    apply MatchString_staging in S.
    assert (S' : Regexp.MatchString (Regexp.MustCompile "(?i)staging")
                   (pre ++ text ++ suf) = true).
    { apply MatchString_staging. destruct S as [S|S]; [left | right].
      - now apply containsAnyCase_around.
      - now apply containsLongStaging_around. }
    rewrite S'.
    destruct (Regexp.MatchString (Regexp.MustCompile "(?i)demo")
                (pre ++ text ++ suf)); [now right | now left].
Qed.

Lemma X5_surrounding_text_witness :
  selectEnvironment Scenario.happy ("the " ++ "staging" ++ " demo")
  = Some ("demo-secret", demoAddress, "Demo")
  /\ selectEnvironment Scenario.happy ("the " ++ "staging" ++ " one")
     = selectEnvironment Scenario.happy "staging".
Proof.
  assert (H : selectEnvironment Scenario.happy "staging" <> None)
    by discriminate.
  destruct (X5_surrounding_text Scenario.happy "the " "staging" " demo" H)
    as [E|E]; [|split; [exact E | reflexivity]].
  split; reflexivity.
Defined.

(** X6: a verified command whose text is shorter than four bytes, the empty
    text included, names no environment: the handler answers 200 with the
    usage text and sends nothing. *)
Theorem X6_short_text (W : World) (req req' : Request) (s : SlashCommand) :
  verifyRequest W req = (None, req') ->
  parseSlashCommand W req' = Ok s ->
  String.length (Text s) < 4 ->
  handler W newResponseWriter req
  = ({| status := Some StatusOK; written := usage |}, [EvParse req']).
Proof.
  intros Hv Hp Hl.
  assert (Hs : selectEnvironment W (Text s) = None).
  { unfold selectEnvironment.
    destruct (Regexp.MatchString (Regexp.MustCompile "(?i)demo") (Text s))
      eqn:D.
    { apply MatchString_demo, containsAnyCase_length in D. simpl in D. lia. }
    destruct (Regexp.MatchString (Regexp.MustCompile "(?i)staging") (Text s))
      eqn:S; [|reflexivity].
    apply MatchString_staging in S. destruct S as [S|S].
    - apply containsAnyCase_length in S. simpl in S. lia.
    - apply containsLongStaging_length in S. lia. }
  now rewrite (handler_valid W _ _ _ _ Hv Hp), Hs.
Qed.

Lemma X6_short_text_witness :
  handler Scenario.happy newResponseWriter (Scenario.signed "shh" "")
  = ({| status := Some 200%Z;
        written := "Please enter either *demo* or *staging*" |},
     [EvParse (Scenario.signed "shh" "")]).
Proof.
  exact (X6_short_text Scenario.happy (Scenario.signed "shh" "")
           (Scenario.signed "shh" "") {| Command := "/otk"; Text := "" |}
           eq_refl eq_refl (Nat.lt_0_succ 3)).
Defined.

(** X7: the verification changes nothing of the request but its body:
    method, address and header fields are as before on every path, and when
    the header check fails the request is left as it was, its body unread. *)
Theorem X7_verify_frame (W : World) (req : Request) :
  req_Method (snd (verifyRequest W req)) = req_Method req
  /\ req_URL (snd (verifyRequest W req)) = req_URL req
  /\ req_Header (snd (verifyRequest W req)) = req_Header req
  /\ forall e,
       NewSecretsVerifier W (req_Header req) (Getenv W "SLACK_SIGNING_SECRET")
       = Err e ->
       snd (verifyRequest W req) = req.
Proof.
  unfold verifyRequest, ReadAll.
  destruct (NewSecretsVerifier W _ _) as [sv|e0].
  - destruct (failure (req_Body req)).
    + repeat split. discriminate.
    + destruct (sv_Write W sv (unread (req_Body req))) as [sv'|e1].
      * destruct (sv_Ensure W sv'); repeat split; discriminate.
      * repeat split. discriminate.
  - repeat split.
Qed.

Lemma X7_verify_frame_witness :
  snd (verifyRequest Scenario.happy (Scenario.unsigned "demo"))
  = Scenario.unsigned "demo".
Proof.
  destruct (X7_verify_frame Scenario.happy (Scenario.unsigned "demo"))
    as (_ & _ & _ & H).
  exact (H "missing headers" eq_refl).
Defined.

(** X8: a request whose body cannot be read to the end is answered with
    401 and nothing else happens, whatever its signature. *)
Theorem X8_unreadable_body (W : World) (req : Request) :
  failure (req_Body req) <> None ->
  handler W newResponseWriter req
  = ({| status := Some StatusUnauthorized; written := "" |}, []).
Proof.
  intros H.
  destruct (verifyRequest W req) as [[e|] req'] eqn:Hv.
  - now rewrite (handler_rejected W _ req req' e Hv).
  - assert (Hp : fst (verifyRequest W req) = None) by now rewrite Hv.
    apply verifyRequest_passes in Hp.
    destruct Hp as (_ & _ & _ & Hf & _). contradiction.
Qed.

Lemma X8_unreadable_body_witness :
  handler Scenario.happy newResponseWriter Scenario.truncated
  = ({| status := Some 401%Z; written := "" |}, []).
Proof.
  apply (X8_unreadable_body Scenario.happy Scenario.truncated).
  discriminate.
Defined.

(** X9: the verification passes exactly when the header check accepts the
    headers with the secret of SLACK_SIGNING_SECRET, the body can be read,
    the hash takes exactly the bytes of the body, and the comparison with
    the signature succeeds. *)
Theorem X9_verify_passes (W : World) (req : Request) :
  fst (verifyRequest W req) = None <->
  exists sv sv',
    NewSecretsVerifier W (req_Header req) (Getenv W "SLACK_SIGNING_SECRET")
    = Ok sv
    /\ failure (req_Body req) = None
    /\ sv_Write W sv (unread (req_Body req)) = Ok sv'
    /\ sv_Ensure W sv' = None.
Proof. apply verifyRequest_passes. Qed.

(** X10: a signing secret that is unset or empty is not refused by the
    program: the verifier is built with the empty secret, and a request it
    accepts is verified and handed to the parser. *)
Theorem X10_missing_signing_secret (W : World) (req : Request)
        (sv sv' : SecretsVerifier W) :
  unsetOrEmpty W "SLACK_SIGNING_SECRET" ->
  NewSecretsVerifier W (req_Header req) "" = Ok sv ->
  failure (req_Body req) = None ->
  sv_Write W sv (unread (req_Body req)) = Ok sv' ->
  sv_Ensure W sv' = None ->
  fst (verifyRequest W req) = None
  /\ parsed (snd (handler W newResponseWriter req))
     = [set_Body req (NewBuffer (unread (req_Body req)))].
Proof.
  intros Hu Hsv Hf Hw He.
  assert (Hg : Getenv W "SLACK_SIGNING_SECRET" = "")
    by (unfold Getenv; destruct Hu as [-> | ->]; reflexivity).
  assert (Hv : fst (verifyRequest W req) = None).
  { apply verifyRequest_passes. exists sv, sv'. now rewrite Hg. }
  split; [exact Hv|].
  pose proof (verifyRequest_request W req Hv) as Hr.
  rewrite handler_log.
  destruct (verifyRequest W req) as [[e|] req']; [discriminate Hv|].
  simpl in Hr. subst req'.
  destruct (parseSlashCommand W _) as [s|e]; [|reflexivity].
  destruct (selectEnvironment W (Text s)) as [[[b a] env]|]; reflexivity.
Qed.

Lemma X10_missing_signing_secret_witness :
  fst (verifyRequest Scenario.bare (Scenario.signed "" "demo")) = None
  /\ parsed (snd (handler Scenario.bare newResponseWriter
                    (Scenario.signed "" "demo")))
     = [Scenario.signed "" "demo"].
Proof.
  exact (X10_missing_signing_secret Scenario.bare (Scenario.signed "" "demo")
           (Scenario.mkVerifier "v0=v0:1600000000:text=demo" "v0:1600000000:")
           (Scenario.mkVerifier "v0=v0:1600000000:text=demo"
              "v0:1600000000:text=demo")
           (or_introl eq_refl) eq_refl eq_refl eq_refl eq_refl).
Defined.

(** X11: when [getToken] returns a key, an answer came back from the key
    server and was read to the end, and its body is the key, or the key
    followed by one newline. *)
Theorem X11_getToken_success (W : World) (bearerToken address token : string)
        (log : list Event) :
  fst (getToken W bearerToken address log) = Ok token ->
  exists res,
    roundTrip W (tokenRequest bearerToken address) = Ok res
    /\ failure (res_Body res) = None
    /\ (unread (res_Body res) = token
        \/ unread (res_Body res) = token ++ Strings.LF).
Proof.
  rewrite getToken_run.
  destruct (url_Parse_ok W address); [|discriminate]. cbv zeta.
  destruct (roundTrip W (tokenRequest bearerToken address)) as [res|e];
    [|discriminate].
  destruct (failure (res_Body res)) eqn:Hf; [discriminate|].
  simpl. intros H. injection H as <-.
  exists res. split; [reflexivity|]. split; [assumption|].
  destruct (Strings.HasSuffix (unread (res_Body res)) Strings.LF) eqn:E.
  - right. apply HasSuffix_endsWith in E. destruct E as [b Hb].
    rewrite Hb at 1. now rewrite Hb, TrimSuffix_append.
  - left. unfold Strings.TrimSuffix. now rewrite E.
Qed.

Lemma X11_getToken_success_witness :
  exists res,
    roundTrip Scenario.happy (tokenRequest "demo-secret" demoAddress) = Ok res
    /\ failure (res_Body res) = None
    /\ (unread (res_Body res) = "abc123"
        \/ unread (res_Body res) = "abc123" ++ Strings.LF).
Proof.
  exact (X11_getToken_success Scenario.happy "demo-secret" demoAddress
           "abc123" [] eq_refl).
Defined.

(** X12: [getToken] makes one attempt: when the address parses it sends
    exactly one request, whether an answer comes back or not, and when the
    address does not parse it sends none; an error of the transport is
    returned as it is. *)
Theorem X12_getToken_single_attempt (W : World) (bearerToken address : string)
        (log : list Event) :
  snd (getToken W bearerToken address log)
  = (log ++ if url_Parse_ok W address
            then [EvDo (tokenRequest bearerToken address)]
            else [])%list
  /\ forall e,
       url_Parse_ok W address = true ->
       roundTrip W (tokenRequest bearerToken address) = Err e ->
       fst (getToken W bearerToken address log) = Err e.
Proof.
  rewrite getToken_run. split.
  - destruct (url_Parse_ok W address); [|simpl; now rewrite app_nil_r].
    cbv zeta.
    destruct (roundTrip W (tokenRequest bearerToken address)) as [res|e];
      [|reflexivity].
    destruct (failure (res_Body res)); reflexivity.
  - intros e Hu Hr. now rewrite Hu, Hr.
Qed.

Lemma X12_getToken_single_attempt_witness :
  getToken Scenario.unreachable "demo-secret" demoAddress []
  = (Err "dial tcp: connection refused",
     [EvDo (tokenRequest "demo-secret" demoAddress)]).
Proof.
  destruct (X12_getToken_single_attempt Scenario.unreachable "demo-secret"
              demoAddress []) as [H1 H2].
  rewrite (surjective_pairing (getToken _ _ _ _)).
  rewrite H1, (H2 "dial tcp: connection refused" eq_refl eq_refl).
  reflexivity.
Defined.

(** X13: which environment a command text selects, in full.  Demo is
    selected exactly when the text contains [demo] in some letter case;
    Staging exactly when it does not and contains [staging] in some letter
    case, or with the long s for its first letter; nothing is selected
    exactly when it contains none of these. *)
Theorem X13_selection (W : World) (text : string) :
  (selectEnvironment W text = Some (Getenv W "DEMO", demoAddress, "Demo")
   <-> containsAnyCase "demo" text)
  /\ (selectEnvironment W text
      = Some (Getenv W "STAGING", stagingAddress, "Staging")
      <-> ~ containsAnyCase "demo" text
          /\ (containsAnyCase "staging" text \/ containsLongStaging text))
  /\ (selectEnvironment W text = None
      <-> ~ containsAnyCase "demo" text
          /\ ~ containsAnyCase "staging" text
          /\ ~ containsLongStaging text).
Proof.
  pose proof (MatchString_demo text) as D.
  pose proof (MatchString_staging text) as S.
  unfold selectEnvironment.
  destruct (Regexp.MatchString (Regexp.MustCompile "(?i)demo") text);
    [|destruct (Regexp.MatchString (Regexp.MustCompile "(?i)staging") text)].
  - assert (Hd : containsAnyCase "demo" text) by now apply D.
    split; [tauto|].
    split; (split; [intros H; discriminate H | tauto]).
  - assert (Hd : ~ containsAnyCase "demo" text)
      by (intros H; apply D in H; discriminate H).
    assert (Hs : containsAnyCase "staging" text \/ containsLongStaging text)
      by now apply S.
    split; [split; [intros H; discriminate H | tauto]|].
    split; [tauto|].
    split; [discriminate | tauto].
  - assert (Hd : ~ containsAnyCase "demo" text)
      by (intros H; apply D in H; discriminate H).
    assert (Hs : ~ (containsAnyCase "staging" text \/ containsLongStaging text))
      by (intros H; apply S in H; discriminate H).
    split; [split; [discriminate | tauto]|].
    split; [split; [discriminate | tauto]|].
    tauto.
Qed.
